(** * The Saharan Air Layer tutorial notebook: level lookup and broadcasting

    A shallow embedding of the three computations of [JSC_SAL_tutorial.ipynb]
    that carry a contract:

    - the cell that builds the dictionary [PresLevIndex] from the pressure
      levels of the first field of regard, and the subscript
      [PresLevIndex[496]] that reads it;
    - the cell that builds [repeatFORs] with [np.repeat(...).reshape(...)];
    - the quality filter [where(Quality_Flag == 0, drop=True)];

    and, around them, the listing [PresLevIndex.keys()] and the two cells
    [griddedView] and [griddedViewAll] that select a level of a granule with
    the index the dictionary returns.

    Floating-point data are modelled by the rationals they denote (every
    finite float is one); NaN and infinities are outside the model, and so
    are values outside the 32-bit integer range, for which the cast of
    [np.array(..., dtype='i4')] is platform-defined. *)

From Stdlib Require Import QArith Qround.
From stdpp Require Import gmap list fin_maps.

(** ** Python outcomes *)

(** The two exceptions the modelled expressions can raise: a dictionary
    subscript with an absent key, and a reshape to a shape of another size. *)
Inductive exn : Set :=
  | KeyError
  | ValueError.

Inductive outcome (A : Type) : Type :=
  | Ok (a : A)
  | Raise (e : exn).

Arguments Ok {A} a.
Arguments Raise {A} e.

Definition succeeds {A} (o : outcome A) : Prop := ∃ a, o = Ok a.
Definition fails {A} (o : outcome A) : Prop := ∃ e, o = Raise e.

(** ** The numpy operations the notebook calls *)

Module Np.

(** The cast of one float to [dtype='i4']: C's float-to-int conversion,
    which drops the fractional part (truncation toward zero). *)
Definition astype_i4 (x : Q) : Z := Z.quot (Qnum x) (Zpos (Qden x)).

(** [np.array(values, dtype='i4')] on a 1-D float array. *)
Definition array_i4 (values : list Q) : list Z := astype_i4 <$> values.

(** [np.repeat(a, repeats)] on a 1-D array: each element [repeats] times,
    contiguously, in order. *)
Definition repeat {T : Type} (a : list T) (repeats : nat) : list T :=
  a ≫= replicate repeats.

(** An array is its shape and its elements in row-major order. *)
Record ndarray (T : Type) : Type := mk_ndarray {
  shape : list nat;
  data : list T
}.
Arguments mk_ndarray {T} shape data.
Arguments shape {T} n.
Arguments data {T} n.

(** [flat.reshape(rows, cols)]: keeps the buffer, and raises [ValueError]
    unless the sizes agree. The dimensions are counts; numpy's [-1]
    placeholder is not one. *)
Definition reshape {T : Type} (flat : list T) (rows cols : nat)
  : outcome (ndarray T) :=
  if length flat =? rows * cols
  then Ok (mk_ndarray [rows; cols] flat)
  else Raise ValueError.

(** [a[i, j]] on a 2-D array, [None] when the array is not 2-D or the
    index is out of bounds. *)
Definition item2 {T : Type} (a : ndarray T) (i j : nat) : option T :=
  match shape a with
  | [rows; cols] =>
      if (i <? rows) && (j <? cols) then data a !! (i * cols + j) else None
  | _ => None
  end.

End Np.

(** ** The dictionary of pressure levels (cell [PresLevIndex]) *)

(** The loop [for i, plev in enumerate(pressureLevs): PresLevIndex.update({plev : i})],
    started at counter [i] on the dictionary [d]. *)
Fixpoint enumerate_update (i : nat) (plevs : list Z) (d : gmap Z nat)
  : gmap Z nat :=
  match plevs with
  | [] => d
  | plev :: rest => enumerate_update (S i) rest (<[plev := i]> d)
  end.

(** The two global names the cell assigns. *)
Record globals : Type := mk_globals {
  pressureLevs : list Z;
  PresLevIndex : gmap Z nat
}.

Definition fresh_globals : globals := mk_globals [] ∅.

(** The whole cell, run on the pressure levels of the first field of regard
    in the notebook state [g]: it assigns [pressureLevs], resets
    [PresLevIndex] to the empty dictionary and runs the loop. *)
Definition cell_PresLevIndex (Pressure : list Q) (g : globals) : globals :=
  let g1 := mk_globals (Np.array_i4 Pressure) (PresLevIndex g) in
  let g2 := mk_globals (pressureLevs g1) ∅ in
  mk_globals (pressureLevs g2)
             (enumerate_update 0 (pressureLevs g2) (PresLevIndex g2)).

(** [buildLevelIndex]: the cell seen as an operation from the levels to the
    dictionary. No statement of the cell raises. *)
Definition buildLevelIndex (levels : list Q) : outcome (gmap Z nat) :=
  Ok (PresLevIndex (cell_PresLevIndex levels fresh_globals)).

(** ** The subscript [PresLevIndex[target]] *)

(** A Python number is hashed and compared by its numeric value: a float
    subscript equals an integer key only when it is that integer. *)
Definition as_int_key (target : Q) : option Z :=
  if (Z.rem (Qnum target) (Zpos (Qden target)) =? 0)%Z
  then Some (Z.quot (Qnum target) (Zpos (Qden target)))
  else None.

(** [d[k]] for an integer [k]. *)
Definition getitem (d : gmap Z nat) (k : Z) : outcome nat :=
  match d !! k with
  | Some i => Ok i
  | None => Raise KeyError
  end.

(** [nearestLevelIndex]: the subscript of the notebook, [index[target]];
    the target is used as it is. *)
Definition nearestLevelIndex (index : gmap Z nat) (target : Q) : outcome nat :=
  match as_int_key target with
  | Some k => getitem index k
  | None => Raise KeyError
  end.

(** ** The broadcast (cell [repeatFORs]) *)

(** [np.repeat(coordinate, levelCount).reshape(profileCount, levelCount)]. *)
Definition broadcastCoordinate {T : Type} (coordinate : list T)
    (levelCount profileCount : nat) : outcome (Np.ndarray T) :=
  Np.reshape (Np.repeat coordinate levelCount) profileCount levelCount.

(** The notebook's instance: 120 fields of regard against 100 levels. *)
Definition repeatFORs (CrIS_FORs : list Z) : outcome (Np.ndarray Z) :=
  broadcastCoordinate CrIS_FORs 100 120.

(** ** The quality filter (cell [griddedViewAll]) *)

(** One profile of the swath at the selected pressure level. *)
Record profile : Type := mk_profile {
  CrIS_FORs : Z;
  Latitude : Q;
  Longitude : Q;
  H2O : Q;
  Quality_Flag : Z
}.

(** [swath.where(swath['Quality_Flag'] == flag, drop=True)]: along the
    profile dimension, the entries where the condition holds are kept, in
    order, and the others are dropped. *)
Definition where_Quality_Flag (flag : Z) (swath : list profile) : list profile :=
  filter (λ p, Quality_Flag p = flag) swath.

(** The notebook keeps the profiles of the best quality. *)
Definition griddedViewAll (swath : list profile) : list profile :=
  where_Quality_Flag 0 swath.

(** ** Notions of the specification *)

(** The specification's [round]: the nearest integer, a tie going to the even
    neighbour as Python's [round] does. *)
Definition spec_round (x : Q) : Z :=
  let f := Qfloor x in
  match Qcompare (x - inject_Z f) (1 # 2) with
  | Lt => f
  | Gt => (f + 1)%Z
  | Eq => if Z.even f then f else (f + 1)%Z
  end.

(** Position [i] survives under the keying [key] when no later position has
    the key of position [i]. *)
Definition survives (key : Q → Z) (levels : list Q) (i : nat) : Prop :=
  ∃ x, levels !! i = Some x ∧
       ∀ j y, i < j → levels !! j = Some y → key y ≠ key x.

(** ** Auxiliary notions for the proofs *)

(** The position of the last occurrence of [k] in [l]. *)
Fixpoint last_index (k : Z) (l : list Z) : option nat :=
  match l with
  | [] => None
  | p :: rest =>
      match last_index k rest with
      | Some j => Some (S j)
      | None => if decide (p = k) then Some 0 else None
      end
  end.

(** The pressure levels of the specification's end-to-end scenario. *)
Definition scenario_levels : list Q := [1000; 850; 500; 496; 300]%Q.

(** The dictionary the cell builds from them. *)
Definition scenario_index : gmap Z nat :=
  PresLevIndex (cell_PresLevIndex scenario_levels fresh_globals).

(** A swath of five profiles with the quality flags of the scenario. *)
Definition scenario_swath : list profile :=
  [ mk_profile 1 10 (-40) (2 # 1) 0;
    mk_profile 2 11 (-41) (3 # 1) 1;
    mk_profile 3 12 (-42) (5 # 2) 0;
    mk_profile 4 13 (-43) (7 # 2) 0;
    mk_profile 5 14 (-44) (9 # 2) 1 ].

(** ** The listing [PresLevIndex.keys()] *)

(** A Python dictionary lists its keys in the order of their insertion, and
    an update of a key that is present keeps the key's place. The dictionary
    with its order is a list of entries without repeated keys. *)
Module OrderedDict.

(** [d.update({k : v})]. *)
Fixpoint update (k : Z) (v : nat) (d : list (Z * nat)) : list (Z * nat) :=
  match d with
  | [] => [(k, v)]
  | (k', v') :: rest =>
      if decide (k' = k) then (k', v) :: rest else (k', v') :: update k v rest
  end.

(** The loop of the cell on the ordered dictionary. *)
Fixpoint enumerate_update (i : nat) (plevs : list Z) (d : list (Z * nat))
  : list (Z * nat) :=
  match plevs with
  | [] => d
  | plev :: rest => enumerate_update (S i) rest (update plev i d)
  end.

(** [d.keys()], as a list. *)
Definition keys (d : list (Z * nat)) : list Z := d.*1.

(** [len(d)]. *)
Definition len (d : list (Z * nat)) : nat := length d.

End OrderedDict.

(** The dictionary of the cell with its order, and the listing the notebook
    prints. *)
Definition PresLevIndex_ordered (Pressure : list Q) : list (Z * nat) :=
  OrderedDict.enumerate_update 0 (Np.array_i4 Pressure) [].

Definition PresLevIndex_keys (Pressure : list Q) : list Z :=
  OrderedDict.keys (PresLevIndex_ordered Pressure).

(** The elements of a list in the order of their first occurrence. *)
Fixpoint first_occurrences (l : list Z) : list Z :=
  match l with
  | [] => []
  | x :: rest => x :: filter (λ y, y ≠ x) (first_occurrences rest)
  end.

(** ** The granule and its selections *)

(** The dataset [xr.open_dataset] returns, along its two dimensions: one
    entry per field of regard ([Number_of_CrIS_FORs]), each with its scalar
    variables and its profiles along [Number_of_P_Levels]. *)
Module Granule.

Record sounding : Type := mk_sounding {
  CrIS_FORs : Z;
  Latitude : Q;
  Longitude : Q;
  Pressure : list Q;
  H2O : list Q;
  Quality_Flag : Z
}.

Record dataset : Type := mk_dataset {
  Number_of_P_Levels : nat;
  soundings : list sounding
}.

(** Every variable of a dataset has the size of its dimensions. *)
Definition well_formed (ds : dataset) : Prop :=
  Forall (λ s, length (Pressure s) = Number_of_P_Levels ds
               ∧ length (H2O s) = Number_of_P_Levels ds) (soundings ds).

(** [ds.sel(Number_of_CrIS_FORs=r)]: the field of regard at position [r];
    [None] stands for the exception raised when there is none. *)
Definition sel_Number_of_CrIS_FORs (r : nat) (ds : dataset) : option sounding :=
  soundings ds !! r.

(** One field of regard at level [i]. *)
Definition at_P_Level (i : nat) (s : sounding) : option profile :=
  h ← H2O s !! i;
  Some (mk_profile (CrIS_FORs s) (Latitude s) (Longitude s) h (Quality_Flag s)).

(** [ds.sel(Number_of_P_Levels=i)]: every field of regard at level [i];
    [None] stands for the exception raised when the dimension has no
    position [i]. *)
Definition sel_Number_of_P_Levels (i : nat) (ds : dataset)
  : option (list profile) :=
  if i <? Number_of_P_Levels ds then mapM (at_P_Level i) (soundings ds)
  else None.

(** How a cell ends when it does not finish: with an exception of the
    dictionary, or with a selection out of range. *)
Inductive failure : Set :=
  | Raised (e : exn)
  | OutOfRange.

Inductive run (A : Type) : Type :=
  | Done (a : A)
  | Failed (f : failure).

Arguments Done {A} a.
Arguments Failed {A} f.

End Granule.

(** The cells [PresLevIndex] and [griddedView] in sequence on the granule
    [nucaps]: the dictionary of the first field of regard, the subscript
    (496 in the notebook) and the selection of the level. *)
Definition cell_griddedView (nucaps : Granule.dataset) (key : Q)
  : Granule.run (list profile) :=
  match Granule.sel_Number_of_CrIS_FORs 0 nucaps with
  | None => Granule.Failed Granule.OutOfRange
  | Some first =>
      match buildLevelIndex (Granule.Pressure first) with
      | Raise e => Granule.Failed (Granule.Raised e)
      | Ok index =>
          match nearestLevelIndex index key with
          | Raise e => Granule.Failed (Granule.Raised e)
          | Ok i =>
              match Granule.sel_Number_of_P_Levels i nucaps with
              | Some view => Granule.Done view
              | None => Granule.Failed Granule.OutOfRange
              end
          end
      end
  end.

(** The cell [griddedViewAll]: the dictionary is the one built from the
    single granule [nucaps]; the level is selected in the aggregate
    [nucapsAll] and the quality filter follows. *)
Definition cell_griddedViewAll (nucaps nucapsAll : Granule.dataset) (key : Q)
  : Granule.run (list profile) :=
  match Granule.sel_Number_of_CrIS_FORs 0 nucaps with
  | None => Granule.Failed Granule.OutOfRange
  | Some first =>
      match buildLevelIndex (Granule.Pressure first) with
      | Raise e => Granule.Failed (Granule.Raised e)
      | Ok index =>
          match nearestLevelIndex index key with
          | Raise e => Granule.Failed (Granule.Raised e)
          | Ok i =>
              match Granule.sel_Number_of_P_Levels i nucapsAll with
              | Some view => Granule.Done (griddedViewAll view)
              | None => Granule.Failed Granule.OutOfRange
              end
          end
      end
  end.

(** A granule of three fields of regard and three levels. *)
Definition sample_granule : Granule.dataset :=
  Granule.mk_dataset 3
    [ Granule.mk_sounding 1 10 (-40)
        [1000; 49663 # 100; 300]%Q [9; 2; 1]%Q 0;
      Granule.mk_sounding 2 11 (-41)
        [1001; 49670 # 100; 301]%Q [8; 3; 1]%Q 1;
      Granule.mk_sounding 3 12 (-42)
        [1002; 49710 # 100; 302]%Q [7; 4; 2]%Q 0 ].

(** * Facts *)

(** ** The loop writes, for each key, its last position *)

Lemma last_index_None k l : last_index k l = None ↔ k ∉ l.
Proof.
  induction l as [|p rest IH]; simpl.
  - split; [intros _; apply not_elem_of_nil | done].
  - rewrite not_elem_of_cons.
    destruct (last_index k rest) as [j|].
    + split; [discriminate|]. intros [_ Hk]. by apply IH in Hk.
    + destruct (decide (p = k)) as [->|Hne].
      * split; [discriminate | intros [Hk _]; done].
      * split; [|done]. intros _. split; [congruence | by apply IH].
Qed.

Lemma last_index_Some k l j :
  last_index k l = Some j ↔
  l !! j = Some k ∧ ∀ j', j < j' → l !! j' ≠ Some k.
Proof.
  revert j. induction l as [|p rest IH]; intros j; simpl.
  - split; [discriminate | intros [H _]; discriminate].
  - destruct (last_index k rest) as [j0|] eqn:E.
    + destruct (proj1 (IH j0) eq_refl) as [Hj0 Hlast].
      split.
      * intros [= <-]. split; [exact Hj0|].
        intros [|j'] Hlt; [lia|]. simpl. apply Hlast. lia.
      * intros [Hj Hmax]. destruct j as [|j].
        -- exfalso. apply (Hmax (S j0)); [lia | exact Hj0].
        -- simpl in Hj. do 2 f_equal.
           destruct (Nat.lt_trichotomy j j0) as [Hlt|[->|Hgt]]; [|done|].
           ++ exfalso. apply (Hmax (S j0)); [lia | exact Hj0].
           ++ exfalso. apply (Hlast j); [lia | exact Hj].
    + apply last_index_None in E.
      assert (Hrest : ∀ m, rest !! m ≠ Some k).
      { intros m Hm. apply E. by eapply list_elem_of_lookup_2. }
      destruct (decide (p = k)) as [->|Hne].
      * split.
        -- intros [= <-]. split; [done|].
           intros [|j'] Hlt; [lia|]. simpl. apply Hrest.
        -- intros [Hj _]. destruct j as [|j]; [done|].
           simpl in Hj. by apply Hrest in Hj.
      * split; [discriminate|]. intros [Hj _].
        destruct j as [|j]; simpl in Hj; [congruence|].
        by apply Hrest in Hj.
Qed.

Lemma enumerate_update_lookup i plevs d k :
  enumerate_update i plevs d !! k =
  match last_index k plevs with
  | Some j => Some (i + j)
  | None => d !! k
  end.
Proof.
  revert i d. induction plevs as [|p rest IH]; intros i d; simpl; [done|].
  rewrite IH. destruct (last_index k rest) as [j|].
  - f_equal. lia.
  - destruct (decide (p = k)) as [->|Hne].
    + rewrite lookup_insert_eq. f_equal. lia.
    + by rewrite lookup_insert_ne.
Qed.

Lemma buildLevelIndex_Ok levels idx :
  buildLevelIndex levels = Ok idx ↔
  idx = enumerate_update 0 (Np.array_i4 levels) ∅.
Proof.
  unfold buildLevelIndex, cell_PresLevIndex. simpl.
  split; [by intros [= <-] | by intros ->].
Qed.

(** The entries of the built dictionary: [k ↦ i] exactly when position [i]
    holds a level of key [k] and no later position does. *)
Lemma index_lookup_Some levels idx k i :
  buildLevelIndex levels = Ok idx →
  idx !! k = Some i ↔
  ∃ x, levels !! i = Some x ∧ Np.astype_i4 x = k ∧
       ∀ j y, i < j → levels !! j = Some y → Np.astype_i4 y ≠ k.
Proof.
  intros ->%buildLevelIndex_Ok.
  rewrite enumerate_update_lookup, lookup_empty.
  destruct (last_index k (Np.array_i4 levels)) as [j0|] eqn:E.
  - apply last_index_Some in E. destruct E as [Hj0 Hlast].
    unfold Np.array_i4 in *. rewrite list_lookup_fmap in Hj0.
    destruct (levels !! j0) as [x0|] eqn:Hx0; [|done].
    simpl in Hj0. injection Hj0 as Hk.
    split.
    + intros [= <-]. exists x0. split_and!; [done..|].
      intros j y Hlt Hy Hky. apply (Hlast j Hlt).
      by rewrite list_lookup_fmap, Hy; simpl; rewrite Hky.
    + intros (x & Hx & Hkx & Hmax). simpl. f_equal.
      destruct (Nat.lt_trichotomy i j0) as [Hlt|[->|Hgt]]; [|done|].
      * exfalso. by apply (Hmax j0 x0).
      * exfalso. apply (Hlast i Hgt).
        by rewrite list_lookup_fmap, Hx; simpl; rewrite Hkx.
  - apply last_index_None in E. split; [discriminate|].
    intros (x & Hx & Hkx & _). exfalso. apply E.
    unfold Np.array_i4. apply list_elem_of_fmap. exists x.
    split; [done|]. by eapply list_elem_of_lookup_2.
Qed.

(** Reads an entry [Hi : idx !! k = Some i] of a built dictionary back as
    the level [x] at position [i] and its key. *)
Ltac index_entry Hb Hi x Hx Hk :=
  apply (index_lookup_Some _ _ _ _ Hb) in Hi;
  destruct Hi as (x & Hx & Hk & _).

Lemma index_lookup_survives levels idx :
  buildLevelIndex levels = Ok idx →
  ∀ i, (∃ k, idx !! k = Some i) ↔ survives Np.astype_i4 levels i.
Proof.
  intros Hb i. unfold survives. split.
  - intros [k Hk]. apply (index_lookup_Some _ _ _ _ Hb) in Hk.
    destruct Hk as (x & Hx & <- & Hmax). eauto.
  - intros (x & Hx & Hmax). exists (Np.astype_i4 x).
    apply (index_lookup_Some _ _ _ _ Hb). eauto.
Qed.

(** ** Integer-valued subscripts and rounding *)

Lemma as_int_key_Some target k :
  as_int_key target = Some k ↔ (target == inject_Z k)%Q.
Proof.
  unfold as_int_key, Qeq. destruct target as [n d]. simpl.
  pose proof (Z.quot_rem' n (Z.pos d)) as Hqr.
  rewrite Z.mul_1_r.
  destruct (Z.eqb_spec (Z.rem n (Z.pos d)) 0) as [Hr|Hr].
  - split.
    + intros [= <-]. lia.
    + intros ->. f_equal. apply Z.quot_mul. lia.
  - split; [discriminate|]. intros ->. exfalso. apply Hr.
    apply Z.rem_mul. lia.
Qed.

Lemma as_int_key_None target :
  as_int_key target = None ↔ ∀ k, ¬ (target == inject_Z k)%Q.
Proof.
  split.
  - intros Hn k Hk. apply as_int_key_Some in Hk. congruence.
  - intros Hall. destruct (as_int_key target) as [k|] eqn:E; [|done].
    apply as_int_key_Some in E. by apply Hall in E.
Qed.

Lemma spec_round_integer target k :
  (target == inject_Z k)%Q → spec_round target = k.
Proof.
  intros Hk. unfold spec_round.
  assert (Hf : Qfloor target = k) by (rewrite Hk; apply Qfloor_Z).
  rewrite Hf.
  assert (Hlt : (target - inject_Z k < 1 # 2)%Q).
  { rewrite Hk. unfold Qlt, Qminus, Qplus, Qopp, inject_Z. simpl. lia. }
  by rewrite (proj1 (Qlt_alt _ _) Hlt).
Qed.

(** The cast drops the fractional part: the result is the integer next to
    the level on the side of zero. *)
Lemma astype_i4_toward_zero x :
  ((0 <= x)%Q →
     (inject_Z (Np.astype_i4 x) <= x)%Q ∧ (x < inject_Z (Np.astype_i4 x + 1))%Q)
  ∧ ((x <= 0)%Q →
     (inject_Z (Np.astype_i4 x - 1) < x)%Q ∧ (x <= inject_Z (Np.astype_i4 x))%Q).
Proof.
  destruct x as [n d]. unfold Np.astype_i4, Qle, Qlt. simpl.
  pose proof (Z.quot_rem' n (Z.pos d)) as Hqr.
  split; intros Hsign.
  - pose proof (Z.rem_bound_pos n (Z.pos d)) as Hr. lia.
  - pose proof (Z.rem_bound_pos_neg n (Z.pos d)) as Hr. lia.
Qed.

Lemma index_dom levels idx k :
  buildLevelIndex levels = Ok idx →
  k ∈ dom idx ↔ ∃ x, x ∈ levels ∧ Np.astype_i4 x = k.
Proof.
  intros Hb. rewrite elem_of_dom. split.
  - intros [i Hi]. index_entry Hb Hi x Hx Hk. exists x.
    split; [by eapply list_elem_of_lookup_2 | done].
  - intros (x & Hx & Hk). apply buildLevelIndex_Ok in Hb. subst idx.
    rewrite enumerate_update_lookup.
    destruct (last_index k (Np.array_i4 levels)) as [j|] eqn:E; [by eexists|].
    apply last_index_None in E. exfalso. apply E.
    unfold Np.array_i4. apply list_elem_of_fmap. eauto.
Qed.

(** * The level index *)

(** C1 (as stated) fails: the subscript does not round its target. With the
    single key 496, the target 496.4 rounds to the key, yet the lookup
    raises. *)
Lemma nearestLevelIndex_rounds_target_counterexample :
  ¬ (∀ (index : gmap Z nat) (target : Q) (i : nat),
       index !! spec_round target = Some i →
       nearestLevelIndex index target = Ok i).
Proof.
  intros H.
  specialize (H {[ 496%Z := 3 ]} (4964 # 10) 3 eq_refl).
  discriminate H.
Qed.

(** C1 (amended). [nearestLevelIndex] is an exact-key lookup that applies no
    rounding and no search by distance: a target that is numerically an
    integer key gets the stored index; the lookup raises [KeyError] (the
    specification's LevelNotFound) whenever [round(target)] is not a key, and
    whenever the target is not an integer; a lookup that succeeds was given
    an integer target that is a key. With the levels 504 and 496, the target
    500 raises although both levels are close. *)
Theorem nearestLevelIndex_exact_key :
  (∀ (index : gmap Z nat) (target : Q),
     (∀ k i, (target == inject_Z k)%Q → index !! k = Some i →
             nearestLevelIndex index target = Ok i)
     ∧ (index !! spec_round target = None →
        nearestLevelIndex index target = Raise KeyError)
     ∧ ((∀ k, ¬ (target == inject_Z k)%Q) →
        nearestLevelIndex index target = Raise KeyError)
     ∧ (∀ i, nearestLevelIndex index target = Ok i →
             (target == inject_Z (spec_round target))%Q
             ∧ index !! spec_round target = Some i)
     ∧ (∀ e, nearestLevelIndex index target = Raise e → e = KeyError))
  ∧ (∃ idx, buildLevelIndex [504; 496]%Q = Ok idx
            ∧ nearestLevelIndex idx 500 = Raise KeyError).
Proof.
  split; [|eexists; split; reflexivity].
  intros index target. unfold nearestLevelIndex, getitem.
  destruct (as_int_key target) as [k0|] eqn:E.
  - apply as_int_key_Some in E.
    pose proof (spec_round_integer _ _ E) as Hr. rewrite Hr.
    split_and!.
    + intros k i Hk Hi. rewrite E in Hk.
      unfold Qeq in Hk; simpl in Hk.
      assert (k0 = k) as -> by lia. by rewrite Hi.
    + by intros ->.
    + intros Hall. by apply Hall in E.
    + intros i Hi. split; [done|].
      destruct (index !! k0); congruence.
    + intros e He. destruct (index !! k0); congruence.
  - split_and!; try done.
    + intros k i Hk. apply as_int_key_Some in Hk. congruence.
    + congruence.
Qed.

(** C2 (as stated) fails: the keys are not the rounded levels. The single
    level 496.63 rounds to 497, which is no key of the dictionary. *)
Lemma buildLevelIndex_keys_rounded_counterexample :
  ¬ (∀ (levels : list Q) (idx : gmap Z nat), levels ≠ [] →
       buildLevelIndex levels = Ok idx →
       ∀ k, k ∈ dom idx ↔ ∃ x, x ∈ levels ∧ spec_round x = k).
Proof.
  intros H.
  specialize (H [49663 # 100] _ ltac:(done) eq_refl 497%Z).
  destruct H as [_ H].
  assert (Hin : ∃ x : Q, x ∈ [49663 # 100] ∧ spec_round x = 497%Z).
  { eexists. split; [apply list_elem_of_here | reflexivity]. }
  apply H in Hin. apply elem_of_dom in Hin as [i Hi].
  vm_compute in Hi. discriminate Hi.
Qed.

(** C2 (amended). The keys of the dictionary built from a sequence of levels
    are exactly the levels cast to 32-bit integers, that is truncated toward
    zero, and each key records a position that holds a level with that
    truncated value. *)
Theorem buildLevelIndex_keys_truncated (levels : list Q) (idx : gmap Z nat) :
  buildLevelIndex levels = Ok idx →
  (∀ k, k ∈ dom idx ↔ ∃ x, x ∈ levels ∧ Np.astype_i4 x = k)
  ∧ (∀ k i, idx !! k = Some i →
            ∃ x, levels !! i = Some x ∧ Np.astype_i4 x = k)
  ∧ (∀ x, x ∈ levels → (0 <= x)%Q →
          (inject_Z (Np.astype_i4 x) <= x)%Q
          ∧ (x < inject_Z (Np.astype_i4 x + 1))%Q)
  ∧ (∀ x, x ∈ levels → (x <= 0)%Q →
          (inject_Z (Np.astype_i4 x - 1) < x)%Q
          ∧ (x <= inject_Z (Np.astype_i4 x))%Q).
Proof.
  intros Hb. split_and!.
  - intros k. by apply index_dom.
  - intros k i Hi. index_entry Hb Hi x Hx Hk. eauto.
  - intros x _. apply astype_i4_toward_zero.
  - intros x _. apply astype_i4_toward_zero.
Qed.

(** C2 at the levels 1000, 496.63 and 300: the keys are 1000, 496 and 300,
    and 496 records position 1. *)
Lemma buildLevelIndex_keys_truncated_witness :
  ∃ idx, buildLevelIndex [1000; 49663 # 100; 300]%Q = Ok idx
         ∧ (∀ k, k ∈ dom idx ↔
                 ∃ x, x ∈ [1000; 49663 # 100; 300]%Q ∧ Np.astype_i4 x = k)
         ∧ idx !! 496%Z = Some 1.
Proof.
  eexists. split; [reflexivity|]. split; [|reflexivity].
  apply (buildLevelIndex_keys_truncated [1000; 49663 # 100; 300]%Q _ eq_refl).
Defined.

(** C3 (as stated) fails on levels with a fractional part: 496.6 and 496.7
    both round to 497 and position 1 is the largest with that rounded value,
    but the dictionary has no key 497 (its only key is 496). *)
Lemma buildLevelIndex_rounded_duplicates_counterexample :
  ¬ (∀ (levels : list Q) (idx : gmap Z nat) (i j : nat) (x y : Q),
       buildLevelIndex levels = Ok idx →
       levels !! i = Some x → levels !! j = Some y → j < i →
       spec_round y = spec_round x →
       (∀ j' y', levels !! j' = Some y' →
                 spec_round y' = spec_round x → j' ≤ i) →
       idx !! spec_round x = Some i).
Proof.
  intros H.
  specialize (H [4966 # 10; 4967 # 10] _ 1 0 (4967 # 10) (4966 # 10)
                eq_refl eq_refl eq_refl ltac:(lia) eq_refl).
  assert (Hi : ∀ (j' : nat) (y' : Q),
             [4966 # 10; 4967 # 10] !! j' = Some y' →
             spec_round y' = spec_round (4967 # 10) → j' ≤ 1).
  { intros [|[|j']] y' Hy' _; [lia | lia | discriminate Hy']. }
  apply H in Hi. vm_compute in Hi. discriminate Hi.
Qed.

(** C3 (amended). Duplicates are resolved last-write-wins on the truncated
    value: when position [i] is the largest position whose level has a given
    truncated value, the dictionary sends that value to [i]. For the input
    [500, 500, 496], key 500 maps to index 1 and key 496 to index 2. *)
Theorem buildLevelIndex_last_write_wins :
  (∀ (levels : list Q) (idx : gmap Z nat) (i : nat) (x : Q),
     buildLevelIndex levels = Ok idx →
     levels !! i = Some x →
     (∀ j y, levels !! j = Some y →
             Np.astype_i4 y = Np.astype_i4 x → j ≤ i) →
     idx !! Np.astype_i4 x = Some i)
  ∧ (∃ idx, buildLevelIndex [500; 500; 496]%Q = Ok idx
            ∧ idx !! 500%Z = Some 1 ∧ idx !! 496%Z = Some 2).
Proof.
  split; [|eexists; split_and!; reflexivity].
  intros levels idx i x Hb Hx Hmax.
  apply (index_lookup_Some _ _ _ _ Hb). exists x. split_and!; [done..|].
  intros j y Hlt Hy Hk. specialize (Hmax j y Hy Hk). lia.
Qed.

(** C3 at the levels 496.6, 497.2 and 496.7: the key 496 of the first and
    the last level records the last, position 2. *)
Lemma buildLevelIndex_last_write_wins_witness :
  ∃ idx, buildLevelIndex [4966 # 10; 4972 # 10; 4967 # 10] = Ok idx
         ∧ idx !! Np.astype_i4 (4967 # 10) = Some 2.
Proof.
  eexists. split; [reflexivity|].
  apply (proj1 buildLevelIndex_last_write_wins
           [4966 # 10; 4972 # 10; 4967 # 10] _ 2 (4967 # 10) eq_refl eq_refl).
  intros [|[|[|j]]] y Hy Hk; [lia | lia | lia | discriminate Hy].
Defined.

(** C6 (as stated) fails: on the empty sequence the cell raises nothing and
    leaves the empty dictionary. *)
Lemma buildLevelIndex_empty_counterexample :
  ¬ (∀ levels : list Q, levels = [] ↔ fails (buildLevelIndex levels)).
Proof.
  intros H. destruct (proj1 (H []) eq_refl) as [e He]. discriminate He.
Qed.

(** C6 (amended). [buildLevelIndex] never fails: it succeeds on every input
    sequence, and on the empty one it returns the empty mapping. *)
Theorem buildLevelIndex_total :
  ∀ levels : list Q,
    succeeds (buildLevelIndex levels)
    ∧ ¬ fails (buildLevelIndex levels)
    ∧ (levels = [] → buildLevelIndex levels = Ok ∅)
    ∧ (∀ idx, buildLevelIndex levels = Ok idx → idx = ∅ → levels = []).
Proof.
  intros levels. split_and!.
  - by eexists.
  - intros [e He]. discriminate He.
  - by intros ->.
  - intros idx Hb ->. destruct levels as [|x rest]; [done|].
    exfalso. assert (Hin : Np.astype_i4 x ∈ dom (∅ : gmap Z nat)).
    { apply (index_dom _ _ _ Hb). exists x. split; [left | done]. }
    by rewrite dom_empty_L in Hin.
Qed.

(** C7 (as stated) fails when survival is judged on rounded keys: 496.6 and
    497.2 both round to 497, so position 0 would be overwritten, yet it is
    stored (under its own key 496). *)
Lemma buildLevelIndex_rounded_survivors_counterexample :
  ¬ (∀ (levels : list Q) (idx : gmap Z nat), levels ≠ [] →
       buildLevelIndex levels = Ok idx →
       ∀ i, i ∈ (map_img idx : gset nat) ↔ survives spec_round levels i).
Proof.
  intros H.
  specialize (H [4966 # 10; 4972 # 10] _ ltac:(done) eq_refl 0).
  destruct H as [H _].
  assert (Hin : 0 ∈ (map_img (PresLevIndex
            (cell_PresLevIndex [4966 # 10; 4972 # 10] fresh_globals)) : gset nat)).
  { apply elem_of_map_img. exists 496%Z. reflexivity. }
  apply H in Hin. destruct Hin as (x & Hx & Hlater).
  injection Hx as <-.
  apply (Hlater 1 (4972 # 10)); [lia | reflexivity | reflexivity].
Qed.

(** C7 (amended). Every index stored in the dictionary built from a sequence
    of length [n] lies in [0, n-1], and the set of stored indices is the set
    of positions not overwritten by a later level of the same truncated
    value. *)
Theorem buildLevelIndex_values_survivors (levels : list Q) (idx : gmap Z nat) :
  buildLevelIndex levels = Ok idx →
  (∀ k i, idx !! k = Some i → i < length levels)
  ∧ (∀ i, i ∈ (map_img idx : gset nat) ↔ survives Np.astype_i4 levels i).
Proof.
  intros Hb. split.
  - intros k i Hi. index_entry Hb Hi x Hx Hk. by eapply lookup_lt_Some.
  - intros i. rewrite elem_of_map_img. by apply index_lookup_survives.
Qed.

(** C7 at the levels 500, 500 and 496. *)
Lemma buildLevelIndex_values_survivors_witness :
  ∃ idx, buildLevelIndex [500; 500; 496]%Q = Ok idx
         ∧ (∀ k i, idx !! k = Some i → i < 3)
         ∧ (∀ i, i ∈ (map_img idx : gset nat) ↔
                 survives Np.astype_i4 [500; 500; 496]%Q i).
Proof.
  eexists. split; [reflexivity|].
  apply (buildLevelIndex_values_survivors [500; 500; 496]%Q _ eq_refl).
Defined.

(** The loop run again on its own result changes nothing. *)
Lemma enumerate_update_again plevs d :
  enumerate_update 0 plevs (enumerate_update 0 plevs d) =
  enumerate_update 0 plevs d.
Proof.
  apply map_eq. intros k. rewrite !enumerate_update_lookup.
  by destruct (last_index k plevs).
Qed.

(** C8. [buildLevelIndex] is deterministic and idempotent: the dictionary
    the cell leaves depends on the levels only, not on the notebook state it
    is run in; running the cell again leaves the same state; so two
    invocations on one sequence return mappings with the same lookups. *)
Theorem buildLevelIndex_idempotent :
  ∀ levels : list Q,
    (∀ g g', PresLevIndex (cell_PresLevIndex levels g) =
             PresLevIndex (cell_PresLevIndex levels g'))
    ∧ (∀ g, cell_PresLevIndex levels (cell_PresLevIndex levels g) =
            cell_PresLevIndex levels g)
    ∧ (∀ g, enumerate_update 0 (Np.array_i4 levels)
              (PresLevIndex (cell_PresLevIndex levels g)) =
            PresLevIndex (cell_PresLevIndex levels g))
    ∧ (∀ idx1 idx2, buildLevelIndex levels = Ok idx1 →
                    buildLevelIndex levels = Ok idx2 →
                    ∀ k, idx1 !! k = idx2 !! k).
Proof.
  intros levels. split_and!.
  - done.
  - done.
  - intros g. simpl. apply enumerate_update_again.
  - intros idx1 idx2 H1 H2 k. congruence.
Qed.

(** C10. Each stored index points back at a level that produces its own
    key: for every key [k] of the dictionary built from a sequence, the level
    at the mapped index converts to [k]; hence a lookup that succeeds returns
    the position of a level whose integer conversion equals
    [round(target)]. *)
Theorem buildLevelIndex_key_consistent (levels : list Q) (idx : gmap Z nat) :
  buildLevelIndex levels = Ok idx →
  (∀ k i, idx !! k = Some i →
          ∃ x, levels !! i = Some x ∧ Np.astype_i4 x = k)
  ∧ (∀ target i, nearestLevelIndex idx target = Ok i →
                 ∃ x, levels !! i = Some x
                      ∧ Np.astype_i4 x = spec_round target).
Proof.
  intros Hb.
  assert (Hkey : ∀ k i, idx !! k = Some i →
                        ∃ x, levels !! i = Some x ∧ Np.astype_i4 x = k).
  { intros k i Hi. index_entry Hb Hi x Hx Hk. eauto. }
  split; [exact Hkey|].
  intros target i Hi. unfold nearestLevelIndex, getitem in Hi.
  destruct (as_int_key target) as [k|] eqn:E; [|discriminate Hi].
  apply as_int_key_Some, spec_round_integer in E. rewrite E.
  apply Hkey. destruct (idx !! k); congruence.
Qed.

(** C10 at the levels of the scenario: the target 500 finds position 2,
    whose level converts to 500. *)
Lemma buildLevelIndex_key_consistent_witness :
  buildLevelIndex scenario_levels = Ok scenario_index
  ∧ nearestLevelIndex scenario_index 500 = Ok 2
  ∧ ∃ x, scenario_levels !! 2 = Some x
         ∧ Np.astype_i4 x = spec_round 500.
Proof.
  split; [reflexivity|]. split; [reflexivity|].
  apply (proj2 (buildLevelIndex_key_consistent
                  scenario_levels scenario_index eq_refl) 500%Q 2).
  reflexivity.
Defined.

(** * The broadcast *)

Section Broadcast.
Context {T : Type}.
Implicit Types (a coordinate : list T) (x : T).

Lemma length_repeat a n : length (Np.repeat a n) = length a * n.
Proof.
  unfold Np.repeat. induction a as [|x rest IH]; [done|].
  rewrite bind_cons, length_app, length_replicate, IH. simpl. lia.
Qed.

Lemma lookup_repeat a n i j :
  j < n → Np.repeat a n !! (i * n + j) = a !! i.
Proof.
  intros Hj. unfold Np.repeat. revert i.
  induction a as [|x rest IH]; intros i; [done|].
  rewrite bind_cons. destruct i as [|i]; simpl.
  - rewrite lookup_app_l by (by rewrite length_replicate).
    by apply lookup_replicate_2.
  - rewrite lookup_app_r by (rewrite length_replicate; lia).
    rewrite length_replicate.
    replace (n + i * n + j - n) with (i * n + j) by lia.
    apply IH.
Qed.

Lemma broadcastCoordinate_Raise coordinate levelCount profileCount e :
  broadcastCoordinate coordinate levelCount profileCount = Raise e ↔
  e = ValueError
  ∧ length coordinate * levelCount ≠ profileCount * levelCount.
Proof.
  unfold broadcastCoordinate, Np.reshape. rewrite length_repeat.
  destruct (Nat.eqb_spec (length coordinate * levelCount)
                         (profileCount * levelCount)) as [Heq|Hne].
  - split; [discriminate | by intros [_ ?]].
  - split; [by intros [= <-] | by intros [-> _]].
Qed.

Lemma broadcastCoordinate_Ok coordinate levelCount profileCount grid :
  broadcastCoordinate coordinate levelCount profileCount = Ok grid ↔
  length coordinate * levelCount = profileCount * levelCount
  ∧ grid = Np.mk_ndarray [profileCount; levelCount]
                         (Np.repeat coordinate levelCount).
Proof.
  unfold broadcastCoordinate, Np.reshape. rewrite length_repeat.
  destruct (Nat.eqb_spec (length coordinate * levelCount)
                         (profileCount * levelCount)) as [Heq|Hne].
  - split; [by intros [= <-] | by intros [_ ->]].
  - split; [discriminate | by intros [? _]].
Qed.

End Broadcast.

(** C4. [broadcastCoordinate] is the reference broadcast: for a coordinate
    of length [profileCount] and any [levelCount] the result is a 2-D array
    of shape [(profileCount, levelCount)] whose entry at row [i], column [j]
    is [coordinate[i]]; for [10, 20, 30] against 4 levels it is a 3 by 4 grid
    with rows of 10, of 20 and of 30. *)
Theorem broadcastCoordinate_reference :
  (∀ (T : Type) (coordinate : list T) (levelCount profileCount : nat),
     length coordinate = profileCount →
     ∃ grid,
       broadcastCoordinate coordinate levelCount profileCount = Ok grid
       ∧ Np.shape grid = [profileCount; levelCount]
       ∧ length (Np.data grid) = profileCount * levelCount
       ∧ ∀ i j, i < profileCount → j < levelCount →
                ∃ c, coordinate !! i = Some c ∧ Np.item2 grid i j = Some c)
  ∧ (∃ grid,
       broadcastCoordinate [10; 20; 30]%Z 4 3 = Ok grid
       ∧ Np.shape grid = [3; 4]
       ∧ ∀ j, j < 4 →
              Np.item2 grid 0 j = Some 10%Z
              ∧ Np.item2 grid 1 j = Some 20%Z
              ∧ Np.item2 grid 2 j = Some 30%Z).
Proof.
  split.
  - intros T coordinate levelCount profileCount Hlen.
    eexists. split_and!.
    + apply broadcastCoordinate_Ok. split; [by rewrite Hlen | done].
    + done.
    + simpl. by rewrite length_repeat, Hlen.
    + intros i j Hi Hj.
      destruct (lookup_lt_is_Some_2 coordinate i) as [c Hc]; [lia|].
      exists c. split; [done|]. unfold Np.item2. simpl.
      destruct (Nat.ltb_spec i profileCount); [|lia].
      destruct (Nat.ltb_spec j levelCount); [|lia].
      simpl. by rewrite lookup_repeat.
  - eexists. split_and!; [reflexivity..|].
    intros [|[|[|[|j]]]] Hj; [by split_and!.. | lia].
Qed.

(** C4 at the coordinate 7, 8 against 3 levels. *)
Lemma broadcastCoordinate_reference_witness :
  ∃ grid,
    broadcastCoordinate [7; 8]%Z 3 2 = Ok grid
    ∧ Np.shape grid = [2; 3]
    ∧ length (Np.data grid) = 2 * 3
    ∧ ∀ i j, i < 2 → j < 3 →
             ∃ c, [7; 8]%Z !! i = Some c ∧ Np.item2 grid i j = Some c.
Proof.
  apply (proj1 broadcastCoordinate_reference Z [7; 8]%Z 3 2). reflexivity.
Defined.

(** C5 (as stated) fails for zero levels: the coordinate [10, 20] has length
    2, not 3, but repeated 0 times it reshapes to [(3, 0)] without error. *)
Lemma broadcastCoordinate_mismatch_counterexample :
  ¬ (∀ (coordinate : list Z) (levelCount profileCount : nat),
       length coordinate ≠ profileCount →
       fails (broadcastCoordinate coordinate levelCount profileCount)).
Proof.
  intros H. destruct (H [10; 20]%Z 0 3 ltac:(simpl; lia)) as [e He].
  discriminate He.
Qed.

(** C5 (amended). [broadcastCoordinate] fails, with [ValueError] (the
    specification's ShapeMismatch), exactly when
    [len(coordinate) * levelCount] differs from [profileCount * levelCount];
    for a positive [levelCount] that is exactly when the coordinate length
    disagrees with [profileCount]; it succeeds whenever the two agree, and
    always when [levelCount] is zero. [broadcastCoordinate([10, 20], 4, 3)]
    fails. *)
Theorem broadcastCoordinate_mismatch :
  (∀ (T : Type) (coordinate : list T) (levelCount profileCount : nat),
     (∀ e, broadcastCoordinate coordinate levelCount profileCount = Raise e →
           e = ValueError)
     ∧ (fails (broadcastCoordinate coordinate levelCount profileCount) ↔
        length coordinate * levelCount ≠ profileCount * levelCount)
     ∧ (0 < levelCount →
        (broadcastCoordinate coordinate levelCount profileCount
           = Raise ValueError
         ↔ length coordinate ≠ profileCount))
     ∧ (length coordinate = profileCount →
        succeeds (broadcastCoordinate coordinate levelCount profileCount))
     ∧ (levelCount = 0 →
        succeeds (broadcastCoordinate coordinate levelCount profileCount)))
  ∧ broadcastCoordinate [10; 20]%Z 4 3 = Raise ValueError.
Proof.
  split; [|reflexivity].
  intros T coordinate levelCount profileCount. split_and!.
  - intros e He. by apply broadcastCoordinate_Raise in He as [-> _].
  - split.
    + intros [e He]. by apply broadcastCoordinate_Raise in He as [_ ?].
    + intros Hne. exists ValueError. by apply broadcastCoordinate_Raise.
  - intros Hpos. rewrite broadcastCoordinate_Raise. split.
    + intros [_ Hne] Heq. apply Hne. by rewrite Heq.
    + intros Hne. split; [done|]. nia.
  - intros Heq. eexists. apply broadcastCoordinate_Ok.
    split; [by rewrite Heq | done].
  - intros ->. eexists. apply broadcastCoordinate_Ok. split; [lia | done].
Qed.

(** * The quality filter *)

Lemma where_Quality_Flag_flags flag swath :
  Quality_Flag <$> where_Quality_Flag flag swath =
  filter (λ f, f = flag) (Quality_Flag <$> swath).
Proof.
  unfold where_Quality_Flag.
  induction swath as [|p rest IH]; [done|].
  rewrite fmap_cons, !filter_cons.
  destruct (decide (Quality_Flag p = flag)); [|done].
  by rewrite fmap_cons, IH.
Qed.

(** C9. The quality filter retains exactly the profiles whose quality flag
    equals the given value: each profile of the result has that flag, every
    profile of the input with that flag is retained, no other profile
    appears, and the retained profiles keep their order; a swath with flags
    [0, 1, 0, 0, 1] filtered to flag 0 retains 3 of its 5 profiles. *)
Theorem where_Quality_Flag_exact :
  (∀ (swath : list profile) (flag : Z),
     (∀ p, p ∈ where_Quality_Flag flag swath → Quality_Flag p = flag)
     ∧ (∀ p, p ∈ swath → Quality_Flag p = flag →
             p ∈ where_Quality_Flag flag swath)
     ∧ (∀ p, p ∈ where_Quality_Flag flag swath → p ∈ swath)
     ∧ where_Quality_Flag flag swath `sublist_of` swath
     ∧ length (where_Quality_Flag flag swath) =
       length (filter (λ f, f = flag) (Quality_Flag <$> swath)))
  ∧ (∀ swath : list profile,
       Quality_Flag <$> swath = [0; 1; 0; 0; 1]%Z →
       length swath = 5 ∧ length (griddedViewAll swath) = 3)
  ∧ length (griddedViewAll scenario_swath) = 3.
Proof.
  assert (Hlen : ∀ swath flag,
             length (where_Quality_Flag flag swath) =
             length (filter (λ f, f = flag) (Quality_Flag <$> swath))).
  { intros swath flag.
    by rewrite <- where_Quality_Flag_flags, length_fmap. }
  split_and!.
  - intros swath flag. unfold where_Quality_Flag. split_and!.
    + intros p Hp. by apply list_elem_of_filter in Hp as [? _].
    + intros p Hp Hflag. by apply list_elem_of_filter.
    + intros p Hp. by apply list_elem_of_filter in Hp as [_ ?].
    + apply sublist_filter.
    + apply Hlen.
  - intros swath Hflags. split.
    + by rewrite <- (length_fmap Quality_Flag), Hflags.
    + unfold griddedViewAll. by rewrite Hlen, Hflags.
  - reflexivity.
Qed.

(** C9 at the swath of the scenario. *)
Lemma where_Quality_Flag_exact_witness :
  Quality_Flag <$> scenario_swath = [0; 1; 0; 0; 1]%Z
  ∧ length scenario_swath = 5
  ∧ length (griddedViewAll scenario_swath) = 3.
Proof.
  split; [reflexivity|].
  apply (proj1 (proj2 where_Quality_Flag_exact) scenario_swath). reflexivity.
Defined.

(** * Further properties of the dictionary of levels *)

Lemma size_list_to_set_length (l : list Z) :
  size (list_to_set l : gset Z) ≤ length l
  ∧ (size (list_to_set l : gset Z) = length l ↔ NoDup l).
Proof.
  induction l as [|x rest [IHle IHeq]].
  - rewrite list_to_set_nil, size_empty. simpl.
    split; [lia|]. split; [constructor | done].
  - rewrite list_to_set_cons. simpl length.
    destruct (decide (x ∈ rest)) as [Hin|Hnotin].
    + rewrite (subseteq_union_1_L {[x]} (list_to_set rest))
        by (by apply singleton_subseteq_l, elem_of_list_to_set).
      split; [lia|]. split; [lia|].
      intros Hnd. by apply NoDup_cons in Hnd as [? _].
    + rewrite size_union
        by (by apply disjoint_singleton_l; rewrite elem_of_list_to_set).
      rewrite size_singleton.
      split; [lia|]. rewrite NoDup_cons. split.
      * intros Hsize. split; [done|]. apply IHeq. lia.
      * intros [_ Hnd]. apply IHeq in Hnd. lia.
Qed.

Lemma index_dom_set levels idx :
  buildLevelIndex levels = Ok idx →
  dom idx = list_to_set (Np.array_i4 levels).
Proof.
  intros Hb. apply set_eq. intros k.
  rewrite (index_dom _ _ _ Hb), elem_of_list_to_set.
  unfold Np.array_i4. rewrite list_elem_of_fmap.
  split; intros (x & H1 & H2); exists x; by split.
Qed.

Lemma nearestLevelIndex_integer idx k :
  nearestLevelIndex idx (inject_Z k) = getitem idx k.
Proof.
  unfold nearestLevelIndex.
  by rewrite (proj2 (as_int_key_Some (inject_Z k) k) (Qeq_refl _)).
Qed.

(** X1. The dictionary has at most as many entries as there are levels, and
    exactly as many when, and only when, the integer parts of the levels are
    pairwise distinct. *)
Theorem buildLevelIndex_size (levels : list Q) (idx : gmap Z nat) :
  buildLevelIndex levels = Ok idx →
  size idx ≤ length levels
  ∧ (size idx = length levels ↔ NoDup (Np.array_i4 levels)).
Proof.
  intros Hb. rewrite <- size_dom, (index_dom_set _ _ Hb).
  replace (length levels) with (length (Np.array_i4 levels))
    by apply length_fmap.
  apply size_list_to_set_length.
Qed.

Lemma buildLevelIndex_size_witness :
  ∃ idx, buildLevelIndex [500; 5004 # 10; 496]%Q = Ok idx
         ∧ size idx ≤ 3
         ∧ (size idx = 3 ↔ NoDup (Np.array_i4 [500; 5004 # 10; 496]%Q)).
Proof.
  eexists. split; [reflexivity|].
  apply (buildLevelIndex_size [500; 5004 # 10; 496]%Q _ eq_refl).
Defined.

(** X2. Two different keys of the dictionary never record the same
    position. *)
Theorem buildLevelIndex_injective (levels : list Q) (idx : gmap Z nat)
    (k1 k2 : Z) (i : nat) :
  buildLevelIndex levels = Ok idx →
  idx !! k1 = Some i → idx !! k2 = Some i → k1 = k2.
Proof.
  intros Hb H1 H2.
  index_entry Hb H1 x1 Hx1 Hk1. index_entry Hb H2 x2 Hx2 Hk2.
  congruence.
Qed.

Lemma buildLevelIndex_injective_witness :
  ∃ idx, buildLevelIndex scenario_levels = Ok idx
         ∧ idx !! 496%Z = Some 3 ∧ 496%Z = 496%Z.
Proof.
  exists scenario_index. split; [reflexivity|]. split; [reflexivity|].
  apply (buildLevelIndex_injective scenario_levels scenario_index
           496 496 3); reflexivity.
Defined.

(** X3. Every level can be found again through its integer part exactly
    when the integer parts of the levels are pairwise distinct: then the
    subscript with the integer part of the level at position [i] returns
    [i], for every position. *)
Theorem buildLevelIndex_round_trip (levels : list Q) (idx : gmap Z nat) :
  buildLevelIndex levels = Ok idx →
  NoDup (Np.array_i4 levels) ↔
  ∀ i x, levels !! i = Some x →
         nearestLevelIndex idx (inject_Z (Np.astype_i4 x)) = Ok i.
Proof.
  intros Hb. split.
  - intros Hnd i x Hx. rewrite nearestLevelIndex_integer. unfold getitem.
    assert (Hi : idx !! Np.astype_i4 x = Some i); [|by rewrite Hi].
    apply (index_lookup_Some _ _ _ _ Hb). exists x. split_and!; [done..|].
    intros j y Hlt Hy Hk.
    assert (i = j); [|lia].
    apply (NoDup_lookup _ i j (Np.astype_i4 x) Hnd); unfold Np.array_i4;
      rewrite list_lookup_fmap; [by rewrite Hx | by rewrite Hy; simpl; f_equal].
  - intros Hall. apply NoDup_alt. intros i j k Hi Hj.
    unfold Np.array_i4 in Hi, Hj. rewrite list_lookup_fmap in Hi, Hj.
    destruct (levels !! i) as [x|] eqn:Hx; [|done].
    destruct (levels !! j) as [y|] eqn:Hy; [|done].
    simpl in Hi, Hj. injection Hi as Hi. injection Hj as Hj.
    pose proof (Hall i x Hx) as Hfi. pose proof (Hall j y Hy) as Hfj.
    rewrite Hi in Hfi. rewrite Hj in Hfj. congruence.
Qed.

Lemma buildLevelIndex_round_trip_witness :
  ∃ idx, buildLevelIndex scenario_levels = Ok idx
         ∧ (NoDup (Np.array_i4 scenario_levels) ↔
            ∀ i x, scenario_levels !! i = Some x →
                   nearestLevelIndex idx (inject_Z (Np.astype_i4 x)) = Ok i).
Proof.
  exists scenario_index. split; [reflexivity|].
  apply (buildLevelIndex_round_trip scenario_levels scenario_index eq_refl).
Defined.




(** ** The order of the keys *)

Lemma filter_all {A} (P : A → Prop) `{!∀ x, Decision (P x)} (l : list A) :
  (∀ x, x ∈ l → P x) → filter P l = l.
Proof.
  induction l as [|x rest IH]; intros Hall; [done|].
  rewrite filter_cons, decide_True by (apply Hall, list_elem_of_here).
  f_equal. apply IH. intros y Hy. by apply Hall, list_elem_of_further.
Qed.

Lemma ordered_update_to_map k v d :
  (list_to_map (OrderedDict.update k v d) : gmap Z nat) =
  <[k := v]> (list_to_map d).
Proof.
  induction d as [|[k' v'] rest IH]; simpl; [done|].
  destruct (decide (k' = k)) as [->|Hne]; simpl.
  - by rewrite insert_insert_eq.
  - by rewrite IH, insert_insert_ne.
Qed.

Lemma ordered_enumerate_update_to_map i plevs d :
  (list_to_map (OrderedDict.enumerate_update i plevs d) : gmap Z nat) =
  enumerate_update i plevs (list_to_map d).
Proof.
  revert i d. induction plevs as [|p rest IH]; intros i d; simpl; [done|].
  by rewrite IH, ordered_update_to_map.
Qed.

Lemma ordered_update_keys k v d :
  OrderedDict.keys (OrderedDict.update k v d) =
  if decide (k ∈ OrderedDict.keys d) then OrderedDict.keys d
  else OrderedDict.keys d ++ [k].
Proof.
  unfold OrderedDict.keys.
  induction d as [|[k' v'] rest IH].
  - cbn [OrderedDict.update fmap list_fmap].
    by rewrite decide_False by apply not_elem_of_nil.
  - cbn [OrderedDict.update]. rewrite (fmap_cons fst). cbn [fst].
    destruct (decide (k' = k)) as [->|Hne].
    + rewrite fmap_cons. cbn [fst].
      by rewrite decide_True by apply list_elem_of_here.
    + rewrite fmap_cons, IH. cbn [fst].
      destruct (decide (k ∈ rest.*1)) as [Hin|Hnotin].
      * by rewrite decide_True by (by apply list_elem_of_further).
      * rewrite decide_False; [done|].
        intros [->|?]%elem_of_cons; done.
Qed.

Lemma first_occurrences_elem_of k l : k ∈ first_occurrences l ↔ k ∈ l.
Proof.
  induction l as [|x rest IH]; simpl; [done|].
  rewrite !elem_of_cons, list_elem_of_filter, IH.
  destruct (decide (k = x)); tauto.
Qed.

Lemma first_occurrences_NoDup l : NoDup (first_occurrences l).
Proof.
  induction l as [|x rest IH]; simpl; [constructor|].
  apply NoDup_cons. split.
  - rewrite list_elem_of_filter. by intros [? _].
  - by apply NoDup_filter.
Qed.

Lemma first_occurrences_sublist l : first_occurrences l `sublist_of` l.
Proof.
  induction l as [|x rest IH]; simpl; [done|].
  apply sublist_skip. etrans; [apply sublist_filter | done].
Qed.

Lemma ordered_enumerate_update_keys i plevs d :
  OrderedDict.keys (OrderedDict.enumerate_update i plevs d) =
  OrderedDict.keys d
  ++ filter (λ k, k ∉ OrderedDict.keys d) (first_occurrences plevs).
Proof.
  revert i d. induction plevs as [|p rest IH]; intros i d.
  - simpl. by rewrite filter_nil, app_nil_r.
  - cbn [OrderedDict.enumerate_update first_occurrences].
    rewrite IH, ordered_update_keys, filter_cons.
    destruct (decide (p ∈ OrderedDict.keys d)) as [Hin|Hnotin].
    + rewrite decide_False by (by intros H; apply H).
      f_equal. rewrite list_filter_filter. apply list_filter_iff.
      intros k.
      split; [intros Hk; split; [done | by intros ->] | by intros [? _]].
    + rewrite decide_True by done.
      rewrite <- app_assoc. cbn [app]. do 2 f_equal.
      rewrite list_filter_filter. apply list_filter_iff.
      intros k. rewrite elem_of_app, list_elem_of_singleton. tauto.
Qed.

(** X5. The listing [PresLevIndex.keys()] shows every integer part of a
    level once, in the order of its first occurrence among the levels,
    although the index stored with it is the one of its last occurrence;
    read as a map, the ordered dictionary is the dictionary of the cell, and
    its length is the number of its keys. *)
Theorem PresLevIndex_keys_order :
  ∀ (levels : list Q) (idx : gmap Z nat),
    buildLevelIndex levels = Ok idx →
    PresLevIndex_keys levels = first_occurrences (Np.array_i4 levels)
    ∧ NoDup (PresLevIndex_keys levels)
    ∧ PresLevIndex_keys levels `sublist_of` Np.array_i4 levels
    ∧ (∀ k, k ∈ PresLevIndex_keys levels ↔ k ∈ dom idx)
    ∧ list_to_map (PresLevIndex_ordered levels) = idx
    ∧ OrderedDict.len (PresLevIndex_ordered levels) = size idx.
Proof.
  intros levels idx Hb.
  assert (Hkeys : PresLevIndex_keys levels =
                  first_occurrences (Np.array_i4 levels)).
  { unfold PresLevIndex_keys, PresLevIndex_ordered.
    rewrite ordered_enumerate_update_keys. simpl.
    apply filter_all. intros k _. apply not_elem_of_nil. }
  assert (Hmap : list_to_map (PresLevIndex_ordered levels) = idx).
  { apply buildLevelIndex_Ok in Hb as ->. unfold PresLevIndex_ordered.
    by rewrite ordered_enumerate_update_to_map. }
  assert (Hnd : NoDup (PresLevIndex_keys levels))
    by (rewrite Hkeys; apply first_occurrences_NoDup).
  split_and!; [done | done | | | done |].
  - rewrite Hkeys. apply first_occurrences_sublist.
  - intros k. rewrite Hkeys, first_occurrences_elem_of.
    by rewrite (index_dom_set _ _ Hb), elem_of_list_to_set.
  - rewrite <- Hmap. unfold OrderedDict.len.
    rewrite map_size_list_to_map by exact Hnd. done.
Qed.

Lemma PresLevIndex_keys_order_witness :
  ∃ idx, buildLevelIndex [500; 496; 5004 # 10]%Q = Ok idx
         ∧ PresLevIndex_keys [500; 496; 5004 # 10]%Q = [500; 496]%Z
         ∧ idx !! 500%Z = Some 2.
Proof.
  eexists. split; [reflexivity|]. split; [|reflexivity].
  rewrite (proj1 (PresLevIndex_keys_order [500; 496; 5004 # 10]%Q _ eq_refl)).
  reflexivity.
Defined.

(** ** The subscript depends on the number only *)




(** * Further properties of the broadcast *)

Lemma repeat_app {T : Type} (a b : list T) n :
  Np.repeat (a ++ b) n = Np.repeat a n ++ Np.repeat b n.
Proof. unfold Np.repeat. apply bind_app. Qed.

Lemma repeat_elem_of {T : Type} (a : list T) n x :
  x ∈ Np.repeat a n ↔ x ∈ a ∧ 0 < n.
Proof.
  unfold Np.repeat. rewrite list_elem_of_bind. split.
  - intros (y & Hx & Hy). apply elem_of_replicate in Hx as [-> Hn].
    split; [done | lia].
  - intros [Hx Hn]. exists x. split; [|done].
    apply elem_of_replicate. split; [done | lia].
Qed.

(** X7. [np.repeat] keeps the order and the elements of its argument: it
    distributes over concatenation, repeating once changes nothing,
    repeating zero times leaves nothing, the result has [len(a) * n]
    elements, and for a positive count its elements are those of the
    argument. *)
Theorem repeat_laws :
  ∀ (T : Type) (a b : list T) (n : nat),
    Np.repeat (a ++ b) n = Np.repeat a n ++ Np.repeat b n
    ∧ Np.repeat a 1 = a
    ∧ Np.repeat a 0 = []
    ∧ length (Np.repeat a n) = length a * n
    ∧ (∀ x, x ∈ Np.repeat a n ↔ x ∈ a ∧ 0 < n)
    ∧ (∀ i j, j < n → Np.repeat a n !! (i * n + j) = a !! i).
Proof.
  intros T a b n. split_and!.
  - apply repeat_app.
  - induction a as [|x rest IH]; [done|].
    change (x :: rest) with ([x] ++ rest). rewrite repeat_app, IH. done.
  - induction a as [|x rest IH]; [done|].
    change (x :: rest) with ([x] ++ rest). rewrite repeat_app, IH. done.
  - apply length_repeat.
  - intros x. apply repeat_elem_of.
  - intros i j Hj. by apply lookup_repeat.
Qed.

(** X8. The cell [repeatFORs] as written, with its 120 by 100 shape:
    it succeeds exactly on a coordinate of 120 fields of regard and raises
    [ValueError] on any other; the grid it returns has 120 * 100 elements and
    holds, in row [i], the field of regard at position [i]. *)
Theorem repeatFORs_shape :
  ∀ CrIS_FORs : list Z,
    (succeeds (repeatFORs CrIS_FORs) ↔ length CrIS_FORs = 120)
    ∧ (length CrIS_FORs ≠ 120 ↔ repeatFORs CrIS_FORs = Raise ValueError)
    ∧ (∀ grid, repeatFORs CrIS_FORs = Ok grid →
               Np.shape grid = [120; 100]
               ∧ length (Np.data grid) = 120 * 100
               ∧ ∀ i j, i < 120 → j < 100 →
                        ∃ c, CrIS_FORs !! i = Some c
                             ∧ Np.item2 grid i j = Some c).
Proof.
  intros coordinate. unfold repeatFORs. split_and!.
  - split.
    + intros [grid Hg]. apply broadcastCoordinate_Ok in Hg as [Hlen _]. lia.
    + intros Hlen. eexists. apply broadcastCoordinate_Ok.
      split; [lia | done].
  - rewrite broadcastCoordinate_Raise. split.
    + intros Hne. split; [done | lia].
    + intros [_ Hne]. lia.
  - intros grid Hg. apply broadcastCoordinate_Ok in Hg as [Hlen ->].
    assert (Hl : length coordinate = 120) by lia.
    split_and!.
    + done.
    + cbn [Np.data]. rewrite length_repeat, Hl. reflexivity.
    + intros i j Hi Hj.
      destruct (lookup_lt_is_Some_2 coordinate i) as [c Hc]; [lia|].
      exists c. split; [done|]. unfold Np.item2. cbn [Np.shape Np.data].
      destruct (Nat.ltb_spec i 120); [|lia].
      destruct (Nat.ltb_spec j 100); [|lia].
      cbn [andb]. by rewrite lookup_repeat.
Qed.

(** * Further properties of the quality filter *)

(** X9. The quality filter works granule by granule and once is enough:
    filtering a concatenation is concatenating the filtered parts, filtering
    again with the same flag changes nothing, filtering the result with
    another flag leaves nothing, the profiles kept and the profiles dropped
    add up to the swath, and the filter returns its argument exactly when
    every profile has the flag. *)
Theorem where_Quality_Flag_laws :
  ∀ (flag flag' : Z) (swath more : list profile),
    where_Quality_Flag flag (swath ++ more) =
      where_Quality_Flag flag swath ++ where_Quality_Flag flag more
    ∧ where_Quality_Flag flag (where_Quality_Flag flag swath) =
      where_Quality_Flag flag swath
    ∧ (flag ≠ flag' →
       where_Quality_Flag flag (where_Quality_Flag flag' swath) = [])
    ∧ length (where_Quality_Flag flag swath)
      + length (filter (λ p, Quality_Flag p ≠ flag) swath) = length swath
    ∧ (where_Quality_Flag flag swath = swath ↔
       Forall (λ p, Quality_Flag p = flag) swath).
Proof.
  intros flag flag' swath more. unfold where_Quality_Flag. split_and!.
  - apply filter_app.
  - apply filter_all. intros p Hp. by apply list_elem_of_filter in Hp as [? _].
  - intros Hne. induction swath as [|p rest IH]; [done|].
    rewrite (filter_cons (λ p, Quality_Flag p = flag') p).
    destruct (decide (Quality_Flag p = flag')) as [Hp|Hp]; [|done].
    rewrite filter_cons, decide_False by congruence. done.
  - induction swath as [|p rest IH]; [done|].
    rewrite !filter_cons.
    destruct (decide (Quality_Flag p = flag)) as [Hp|Hp].
    + rewrite decide_False by (by intros H; apply H). simpl. lia.
    + rewrite decide_True by done. simpl. lia.
  - split.
    + intros Heq. apply Forall_forall. intros p Hp. rewrite <- Heq in Hp.
      by apply list_elem_of_filter in Hp as [? _].
    + intros Hall. apply filter_all. intros p Hp.
      by apply (proj1 (Forall_forall _ _) Hall).
Qed.

(** * The cells on a granule *)

Lemma at_P_Level_Some i s p :
  Granule.at_P_Level i s = Some p ↔
  ∃ h, Granule.H2O s !! i = Some h
       ∧ p = mk_profile (Granule.CrIS_FORs s) (Granule.Latitude s)
                        (Granule.Longitude s) h (Granule.Quality_Flag s).
Proof.
  unfold Granule.at_P_Level. destruct (Granule.H2O s !! i) as [h|]; simpl.
  - split; [intros [= <-]; eauto | intros (h' & [= <-] & ->); done].
  - split; [done | intros (h' & Hh & _); done].
Qed.

Lemma sel_Number_of_P_Levels_Some i ds :
  Granule.well_formed ds → i < Granule.Number_of_P_Levels ds →
  ∃ view, Granule.sel_Number_of_P_Levels i ds = Some view
          ∧ Forall2 (λ s p, Granule.at_P_Level i s = Some p)
                    (Granule.soundings ds) view.
Proof.
  intros Hwf Hi. unfold Granule.sel_Number_of_P_Levels.
  destruct (Nat.ltb_spec i (Granule.Number_of_P_Levels ds)); [|lia].
  assert (Hsome : is_Some (mapM (Granule.at_P_Level i) (Granule.soundings ds))).
  { apply mapM_is_Some. eapply Forall_impl; [exact Hwf|].
    intros s [_ Hlen]. simpl. unfold Granule.at_P_Level.
    destruct (lookup_lt_is_Some_2 (Granule.H2O s) i) as [h ->]; [lia|].
    by eexists. }
  destruct Hsome as [view Hview]. exists view. split; [done|].
  by apply mapM_Some_1.
Qed.

Lemma sel_Number_of_P_Levels_None i ds :
  Granule.Number_of_P_Levels ds ≤ i →
  Granule.sel_Number_of_P_Levels i ds = None.
Proof.
  intros Hi. unfold Granule.sel_Number_of_P_Levels.
  by destruct (Nat.ltb_spec i (Granule.Number_of_P_Levels ds)); [lia|].
Qed.

(** What a successful subscript on the dictionary of a profile says. *)
Lemma subscript_Ok levels idx key i :
  buildLevelIndex levels = Ok idx →
  nearestLevelIndex idx key = Ok i →
  ∃ p, levels !! i = Some p ∧ (inject_Z (Np.astype_i4 p) == key)%Q.
Proof.
  intros Hb Hi. unfold nearestLevelIndex, getitem in Hi.
  destruct (as_int_key key) as [k|] eqn:E; [|discriminate Hi].
  destruct (idx !! k) as [i'|] eqn:Hk; [|discriminate Hi].
  injection Hi as ->. index_entry Hb Hk p Hp Hkp.
  exists p. split; [done|]. apply as_int_key_Some in E.
  by rewrite Hkp, E.
Qed.

Lemma subscript_Raise levels idx key e :
  buildLevelIndex levels = Ok idx →
  nearestLevelIndex idx key = Raise e ↔
  e = KeyError ∧ ∀ p, p ∈ levels → ¬ (inject_Z (Np.astype_i4 p) == key)%Q.
Proof.
  intros Hb. unfold nearestLevelIndex, getitem.
  destruct (as_int_key key) as [k|] eqn:E.
  - apply as_int_key_Some in E.
    destruct (idx !! k) as [i|] eqn:Hk.
    + split; [discriminate|]. intros [_ Hall]. exfalso.
      index_entry Hb Hk p Hp Hkp.
      apply (Hall p); [by eapply list_elem_of_lookup_2|].
      by rewrite Hkp, E.
    + split; [|by intros [-> _]]. intros [= <-]. split; [done|].
      intros p Hp Heq. rewrite E in Heq.
      unfold Qeq in Heq. simpl in Heq.
      assert (Hin : k ∈ dom idx).
      { apply (index_dom _ _ _ Hb). exists p. split; [done | lia]. }
      apply elem_of_dom in Hin as [i Hi]. congruence.
  - split; [|by intros [-> _]]. intros [= <-]. split; [done|].
    intros p _ Heq. symmetry in Heq.
    by apply (proj1 (as_int_key_None key) E) in Heq.
Qed.

Lemma first_sounding_levels ds first :
  Granule.well_formed ds →
  Granule.sel_Number_of_CrIS_FORs 0 ds = Some first →
  length (Granule.Pressure first) = Granule.Number_of_P_Levels ds.
Proof.
  intros Hwf Hfirst. unfold Granule.sel_Number_of_CrIS_FORs in Hfirst.
  by destruct (proj1 (Forall_lookup _ _) Hwf 0 first Hfirst) as [? _].
Qed.

Lemma cell_griddedView_Done nucaps key first index i :
  Granule.well_formed nucaps →
  Granule.sel_Number_of_CrIS_FORs 0 nucaps = Some first →
  buildLevelIndex (Granule.Pressure first) = Ok index →
  nearestLevelIndex index key = Ok i →
  ∃ view,
    cell_griddedView nucaps key = Granule.Done view
    ∧ Forall2 (λ s p, Granule.at_P_Level i s = Some p)
              (Granule.soundings nucaps) view.
Proof.
  intros Hwf Hfirst Hb Hi.
  destruct (subscript_Ok _ _ _ _ Hb Hi) as (p & Hp & _).
  assert (Hrange : i < Granule.Number_of_P_Levels nucaps).
  { rewrite <- (first_sounding_levels _ _ Hwf Hfirst).
    by eapply lookup_lt_Some. }
  destruct (sel_Number_of_P_Levels_Some i nucaps Hwf Hrange)
    as (view & Hsel & Hview).
  exists view. split; [|done].
  unfold cell_griddedView. by rewrite Hfirst, Hb, Hi, Hsel.
Qed.

(** X10. On a well-formed granule the level that the subscript returns is
    always a position of the level dimension: when the key is found, the
    cell [griddedView] finishes with one profile for every field of regard,
    in order, each carrying its coordinates, its flag and its value at the
    selected level, and the level selected is one where the pressure of the
    first field of regard has the key as its integer part. *)
Theorem cell_griddedView_in_range
    (nucaps : Granule.dataset) (key : Q) (first : Granule.sounding)
    (index : gmap Z nat) (i : nat) :
  Granule.well_formed nucaps →
  Granule.sel_Number_of_CrIS_FORs 0 nucaps = Some first →
  buildLevelIndex (Granule.Pressure first) = Ok index →
  nearestLevelIndex index key = Ok i →
  ∃ view,
    cell_griddedView nucaps key = Granule.Done view
    ∧ length view = length (Granule.soundings nucaps)
    ∧ (∀ r s, Granule.soundings nucaps !! r = Some s →
              ∃ h, Granule.H2O s !! i = Some h
                   ∧ view !! r =
                     Some (mk_profile (Granule.CrIS_FORs s)
                             (Granule.Latitude s) (Granule.Longitude s) h
                             (Granule.Quality_Flag s)))
    ∧ ∃ p, Granule.Pressure first !! i = Some p
           ∧ (inject_Z (Np.astype_i4 p) == key)%Q.
Proof.
  intros Hwf Hfirst Hb Hi.
  destruct (subscript_Ok _ _ _ _ Hb Hi) as (p & Hp & Hkey).
  destruct (cell_griddedView_Done _ _ _ _ _ Hwf Hfirst Hb Hi)
    as (view & Hrun & Hview).
  exists view. split_and!.
  - done.
  - symmetry. by eapply Forall2_length.
  - intros r s Hs.
    destruct (Forall2_lookup_l _ _ _ _ _ Hview Hs) as (q & Hq & Hat).
    apply at_P_Level_Some in Hat as (h & Hh & ->). eauto.
  - eauto.
Qed.

Lemma cell_griddedView_in_range_witness :
  ∃ view,
    cell_griddedView sample_granule 496 = Granule.Done view
    ∧ length view = 3
    ∧ H2O <$> view = [2; 3; 4]%Q.
Proof.
  destruct (cell_griddedView_in_range sample_granule 496
              (Granule.mk_sounding 1 10 (-40)
                 [1000; 49663 # 100; 300]%Q [9; 2; 1]%Q 0)
              (PresLevIndex (cell_PresLevIndex
                 [1000; 49663 # 100; 300]%Q fresh_globals)) 1)
    as (view & Hrun & Hlen & _).
  - repeat constructor.
  - reflexivity.
  - reflexivity.
  - reflexivity.
  - exists view. split; [exact Hrun|]. split; [exact Hlen|].
    vm_compute in Hrun. injection Hrun as <-. reflexivity.
Defined.

(** X11. On a well-formed granule the cell [griddedView] can fail in two
    ways only: with a selection out of range exactly when the granule has no
    field of regard, and with [KeyError] exactly when no level of the first
    field of regard has the key as its integer part; the selection of the
    level itself never goes out of range. *)
Theorem cell_griddedView_failures (nucaps : Granule.dataset) (key : Q) :
  Granule.well_formed nucaps →
  (cell_griddedView nucaps key = Granule.Failed Granule.OutOfRange ↔
   Granule.soundings nucaps = [])
  ∧ (∀ e, cell_griddedView nucaps key = Granule.Failed (Granule.Raised e) →
          e = KeyError)
  ∧ (∀ first, Granule.sel_Number_of_CrIS_FORs 0 nucaps = Some first →
       (cell_griddedView nucaps key = Granule.Failed (Granule.Raised KeyError)
        ↔ ∀ p, p ∈ Granule.Pressure first →
               ¬ (inject_Z (Np.astype_i4 p) == key)%Q)).
Proof.
  intros Hwf.
  assert (Hcases :
    match Granule.sel_Number_of_CrIS_FORs 0 nucaps with
    | None => cell_griddedView nucaps key = Granule.Failed Granule.OutOfRange
    | Some first =>
        ∃ index, buildLevelIndex (Granule.Pressure first) = Ok index ∧
          match nearestLevelIndex index key with
          | Ok i => ∃ view, cell_griddedView nucaps key = Granule.Done view
          | Raise e =>
              cell_griddedView nucaps key = Granule.Failed (Granule.Raised e)
          end
    end).
  { destruct (Granule.sel_Number_of_CrIS_FORs 0 nucaps) as [first|] eqn:Hf.
    - eexists. split; [reflexivity|].
      destruct (nearestLevelIndex _ key) as [i|e] eqn:Hi.
      + destruct (cell_griddedView_Done nucaps key first _ i
                    Hwf Hf eq_refl Hi) as (view & Hrun & _). eauto.
      + unfold cell_griddedView. rewrite Hf. simpl.
        unfold buildLevelIndex in Hi. simpl in Hi. by rewrite Hi.
    - unfold cell_griddedView. by rewrite Hf. }
  unfold Granule.sel_Number_of_CrIS_FORs in *.
  destruct (Granule.soundings nucaps) as [|first rest] eqn:Hs; simpl in *.
  - split_and!; [done | by rewrite Hcases | done].
  - destruct Hcases as (index & Hb & Hcases).
    destruct (nearestLevelIndex index key) as [i|e] eqn:Hi.
    + destruct Hcases as [view Hrun]. rewrite Hrun. split_and!.
      * split; discriminate.
      * discriminate.
      * intros ? [= <-]. split; [discriminate|]. intros Hall.
        assert (Hr : nearestLevelIndex index key = Raise KeyError)
          by (by apply (subscript_Raise _ _ _ _ Hb)).
        congruence.
    + rewrite Hcases.
      apply (subscript_Raise _ _ _ _ Hb) in Hi as [-> Hall].
      split_and!.
      * split; discriminate.
      * by intros e [= <-].
      * intros ? [= <-]. done.
Qed.

Lemma cell_griddedView_failures_witness :
  Granule.well_formed sample_granule
  ∧ cell_griddedView sample_granule 500 =
    Granule.Failed (Granule.Raised KeyError).
Proof.
  assert (Hwf : Granule.well_formed sample_granule) by repeat constructor.
  split; [exact Hwf|].
  destruct (cell_griddedView_failures sample_granule 500 Hwf)
    as (_ & _ & Hkey).
  apply (Hkey _ eq_refl).
  intros p Hp.
  repeat (apply elem_of_cons in Hp as [->|Hp]; [discriminate|]).
  by apply elem_of_nil in Hp.
Defined.

Lemma at_P_Level_filter i ss view :
  Forall2 (λ s p, Granule.at_P_Level i s = Some p) ss view →
  Forall2 (λ s p, Granule.at_P_Level i s = Some p)
    (filter (λ s, Granule.Quality_Flag s = 0%Z) ss)
    (where_Quality_Flag 0 view).
Proof.
  unfold where_Quality_Flag.
  induction 1 as [|s p ss view Hsp _ IH]; [constructor|].
  rewrite !filter_cons.
  assert (Hflag : Quality_Flag p = Granule.Quality_Flag s).
  { by apply at_P_Level_Some in Hsp as (h & _ & ->). }
  rewrite Hflag.
  destruct (decide (Granule.Quality_Flag s = 0%Z)); [by constructor | done].
Qed.

(** X12. The cell [griddedViewAll] reads the aggregate with the dictionary
    of the single granule. When the level found is a position of the
    aggregate's level dimension, the cell finishes with exactly the fields
    of regard of the aggregate whose quality flag is 0, in order, each at
    the selected level; when the aggregate has too few levels for it, the
    selection is out of range. *)
Theorem cell_griddedViewAll_retains
    (nucaps nucapsAll : Granule.dataset) (key : Q)
    (first : Granule.sounding) (index : gmap Z nat) (i : nat) :
  Granule.well_formed nucapsAll →
  Granule.sel_Number_of_CrIS_FORs 0 nucaps = Some first →
  buildLevelIndex (Granule.Pressure first) = Ok index →
  nearestLevelIndex index key = Ok i →
  (i < Granule.Number_of_P_Levels nucapsAll →
   ∃ result,
     cell_griddedViewAll nucaps nucapsAll key = Granule.Done result
     ∧ Forall2 (λ s p, Granule.at_P_Level i s = Some p)
         (filter (λ s, Granule.Quality_Flag s = 0%Z)
                 (Granule.soundings nucapsAll))
         result
     ∧ CrIS_FORs <$> result =
       Granule.CrIS_FORs <$>
         filter (λ s, Granule.Quality_Flag s = 0%Z)
                (Granule.soundings nucapsAll)
     ∧ Forall (λ p, Quality_Flag p = 0%Z) result)
  ∧ (Granule.Number_of_P_Levels nucapsAll ≤ i →
     cell_griddedViewAll nucaps nucapsAll key =
     Granule.Failed Granule.OutOfRange).
Proof.
  intros Hwf Hfirst Hb Hi. split.
  - intros Hrange.
    destruct (sel_Number_of_P_Levels_Some i nucapsAll Hwf Hrange)
      as (view & Hsel & Hview).
    pose proof (at_P_Level_filter _ _ _ Hview) as Hkept.
    exists (griddedViewAll view). split_and!.
    + unfold cell_griddedViewAll. by rewrite Hfirst, Hb, Hi, Hsel.
    + exact Hkept.
    + unfold griddedViewAll.
      induction Hkept as [|s p ss ps Hsp _ IH]; [done|].
      rewrite !fmap_cons, IH. f_equal.
      by apply at_P_Level_Some in Hsp as (h & _ & ->).
    + apply Forall_forall. intros p Hp. unfold griddedViewAll in Hp.
      unfold where_Quality_Flag in Hp.
      by apply list_elem_of_filter in Hp as [? _].
  - intros Hout. unfold cell_griddedViewAll.
    by rewrite Hfirst, Hb, Hi, (sel_Number_of_P_Levels_None _ _ Hout).
Qed.

Lemma cell_griddedViewAll_retains_witness :
  ∃ result,
    cell_griddedViewAll sample_granule sample_granule 496 =
      Granule.Done result
    ∧ CrIS_FORs <$> result = [1; 3]%Z.
Proof.
  assert (Hwf : Granule.well_formed sample_granule) by repeat constructor.
  destruct (proj1 (cell_griddedViewAll_retains sample_granule sample_granule
                     496 _ _ 1 Hwf eq_refl eq_refl eq_refl))
    as (result & Hrun & _ & Hfors & _).
  - simpl. lia.
  - exists result. split; [exact Hrun|]. rewrite Hfors. reflexivity.
Defined.
